(** * Shallow embedding of the Azure Storage file-share client transfer engine

    Sources: [sdk/storage/src/shares/share_file_client.cpp] ([FileClient::Download]
    and its resume function, [UploadRange], [UploadRangeFromUrl], [ClearRange],
    [GetRangeList], the buffer overload of [DownloadTo]) and
    [sdk/core/azure-core/test/ut/pipeline.cpp].

    [int64_t] values are modelled as [Z]; signed overflow is undefined in C++, so
    the arithmetic is written as on mathematical integers. Strings are
    [String.string]. *)

From Stdlib Require Import ZArith List String Ascii Bool Lia Sorting.Permutation.
Import ListNotations.
Open Scope Z_scope.
#[local] Set Warnings "-register-all".

(* ------------------------------------------------------------------------- *)
(** ** [std::to_string] on [int64_t] *)

Fixpoint digits_acc (fuel : nat) (n : Z) (acc : string) : string :=
  match fuel with
  | O => acc
  | S f =>
      let acc' := String (ascii_of_nat (48 + Z.to_nat (n mod 10))) acc in
      if n / 10 =? 0 then acc' else digits_acc f (n / 10) acc'
  end.

(** Decimal rendering; twenty digits cover every [int64_t]. *)
Definition to_string (z : Z) : string :=
  if z <? 0 then String "-" (digits_acc 20 (- z) EmptyString)
  else digits_acc 20 z EmptyString.

(* ------------------------------------------------------------------------- *)
(** ** Options and range headers *)

(** [DownloadFileOptions]: the fields the range logic reads. *)
Record DownloadFileOptions := {
  Offset : option Z;
  Length : option Z;
}.

(** The [Range] protocol option built by [FileClient::Download]
    (share_file_client.cpp, lines 213-227). *)
Definition download_range (options : DownloadFileOptions) : option string :=
  match Offset options with
  | Some off =>
      match Length options with
      | Some len =>
          Some ("bytes=" ++ to_string off ++ "-" ++ to_string (off + len - 1))%string
      | None => Some ("bytes=" ++ to_string off ++ "-")%string
      end
  | None => None
  end.

(** [FileClient::UploadRange] (lines 399-403): [XMsRange] from the offset and
    the content stream's length. *)
Definition upload_range_header (offset contentLength : Z) : string :=
  ("bytes=" ++ to_string offset ++ "-" ++ to_string (offset + contentLength - 1))%string.

(** [UploadFileRangeFromUrlOptions]: the fields the range logic reads. *)
Record UploadFileRangeFromUrlOptions := {
  SourceOffset : option Z;
  SourceLength : option Z;
}.

(** The protocol options [UploadRangeFromUrl] fills with a range. *)
Record UploadRangeFromUrlProtocol := {
  ContentLength_p : Z;
  TargetRange : string;
  SourceRange : option string;
}.

(** [FileClient::UploadRangeFromUrl] (lines 416-435), as written: the source
    range is assigned to [TargetRange]. *)
Definition upload_range_from_url (offset length : Z)
    (options : UploadFileRangeFromUrlOptions) : UploadRangeFromUrlProtocol :=
  let target :=
    ("bytes=" ++ to_string offset ++ "-" ++ to_string (offset + length - 1))%string in
  let target :=
    match SourceOffset options with
    | Some so =>
        match SourceLength options with
        | Some sl =>
            ("bytes=" ++ to_string so ++ "-" ++ to_string (so + sl - 1))%string
        | None => ("bytes=" ++ to_string so ++ "-")%string
        end
    | None => target
    end in
  {| ContentLength_p := length; TargetRange := target; SourceRange := None |}.

(** [FileClient::ClearRange] (lines 451-460). *)
Definition clear_range_header (offset : Z) (length : option Z) : string :=
  match length with
  | Some len => ("bytes=" ++ to_string offset ++ "-" ++ to_string (offset + len - 1))%string
  | None => ("bytes=" ++ to_string offset ++ "-")%string
  end.

(** [FileClient::GetRangeList] (lines 475-488). *)
Definition get_range_list_range (offset length : option Z) : option string :=
  match offset with
  | Some off =>
      match length with
      | Some len =>
          Some ("bytes=" ++ to_string off ++ "-" ++ to_string (off + len - 1))%string
      | None => Some ("bytes=" ++ to_string off ++ "-")%string
      end
  | None => None
  end.

Example to_string_ex : to_string 1048575 = "1048575"%string.
Proof. reflexivity. Qed.
Example to_string_neg : to_string (-12) = "-12"%string.
Proof. reflexivity. Qed.

(* ------------------------------------------------------------------------- *)
(** ** Exceptions, fault kinds and the effect monad *)

(** The exceptions the modelled code throws or propagates. *)
Inductive exn :=
| ErrFileChanged                  (* "File was changed during the download process." *)
| ErrReadBody                     (* "error when reading body stream" *)
| ErrBufferNotBigEnough (size : Z) (* "buffer is not big enough, file range size is ..." *)
| ErrInvalidArgument              (* std::invalid_argument *)
| ErrParse                        (* std::stoll failure or missing Content-Range *)
| ErrTransport (what : string)    (* failure surfaced by the pipeline *)
| ErrService (status : Z)         (* non-2xx response surfaced by the pipeline *)
| OutOfFuel.                      (* model only: recursion bound exhausted *)

Inductive FaultKind :=
| TransportFault | ServiceFault | ConsistencyFault | ConfigFault | CancelledFault.

(** Modelled from the spec: the fault taxonomy of section 7, applied to the
    exceptions above. *)
Definition fault_kind (e : exn) : FaultKind :=
  match e with
  | ErrFileChanged => ConsistencyFault
  | ErrBufferNotBigEnough _ | ErrInvalidArgument => ConfigFault
  | ErrService _ | ErrParse => ServiceFault
  | ErrReadBody | ErrTransport _ | OutOfFuel => TransportFault
  end.

Definition is_consistency (e : exn) : bool :=
  match fault_kind e with ConsistencyFault => true | _ => false end.

(** What the client does that is observable from outside: requests sent
    through the pipeline and bytes stored into the caller's buffer. *)
Inductive Event :=
| Sent (range : option string)
| BufWrite (at_ : Z) (count : Z).

(** A raw download response, as the REST layer returns it. *)
Record RawResponse := {
  raw_ETag : string;
  raw_LastModified : string;
  raw_ContentRange : option string;
  raw_HttpHeaders : string;
  raw_Metadata : list (string * string);
  raw_IsServerEncrypted : bool;
  raw_BodyId : nat;
  raw_BodyLength : Z;
}.

(** A body stream: a raw network body, or a [ReliableStream] over an inner
    stream. The resume function of a [ReliableStream] is the lambda
    [retryFunction] of [FileClient::Download]; it is represented by what it
    captures ([options], [eTag]); [retryOffset] is [HttpGetterInfo::Offset]. *)
Inductive BodyStream :=
| RawBody (id : nat) (len : Z)
| ReliableStream (inner : option BodyStream) (options : DownloadFileOptions)
    (eTag : string) (retryOffset : Z).

(** [BodyStream::Length()]; a [ReliableStream] forwards to its inner stream
    (a reset inner stream has no length; 0 stands for that undefined case). *)
Fixpoint body_length (b : BodyStream) : Z :=
  match b with
  | RawBody _ len => len
  | ReliableStream (Some i) _ _ _ => body_length i
  | ReliableStream None _ _ _ => 0
  end.

(** [DownloadFileResult]. *)
Record DownloadFileResult := {
  ETag : string;
  LastModified : string;
  ContentRange : option string;
  HttpHeaders : string;
  Metadata : list (string * string);
  IsServerEncrypted : bool;
  Body : BodyStream;
}.

(* ------------------------------------------------------------------------- *)
(** ** [Storage::Details::ConcurrentTransfer] *)

(** Modelled from the spec: the Chunk Plan of [ConcurrentTransfer]
    (common/concurrent_transfer, not in the sources), section 4.4: contiguous
    chunks of [chunkSize] bytes from [offset], the last one truncated to the
    remaining length. *)
Definition num_chunks (length chunkSize : Z) : Z := (length + chunkSize - 1) / chunkSize.

Definition chunk_offset (offset chunkSize : Z) (i : nat) : Z :=
  offset + chunkSize * Z.of_nat i.

Definition chunk_length (length chunkSize : Z) (i : nat) : Z :=
  Z.min (length - chunkSize * Z.of_nat i) chunkSize.

(** The plan as [(offset, length, chunkIndex)] triples, in dispatch order. *)
Definition chunk_plan (offset length chunkSize : Z) : list (Z * Z * Z) :=
  map (fun i => (chunk_offset offset chunkSize i, chunk_length length chunkSize i, Z.of_nat i))
      (seq 0 (Z.to_nat (num_chunks length chunkSize))).

(** What the scheduler does: dispatch a chunk to a worker slot, or observe a
    worker's completion (with its fault, if any). *)
Inductive SchedEvent :=
| Dispatch (i : nat)
| Complete (i : nat) (outcome : option exn).

Fixpoint remove_nth {A} (n : nat) (l : list A) : list A :=
  match n, l with
  | _, [] => []
  | O, _ :: t => t
  | S n', h :: t => h :: remove_nth n' t
  end.

Section Scheduler.

(** [St] is the state the workers act on; [work i] runs chunk [i] to
    completion and reports its fault. *)
Variable St : Type.
Variable concurrency : nat.
Variable total : nat.
Variable work : nat -> St -> St * option exn.

(** Modelled from the spec: dispatch the next unstarted chunks in plan order
    while a worker slot is free. *)
Fixpoint fill (k : nat) (next : nat) (inflight : list nat) (tr : list SchedEvent)
    : nat * list nat * list SchedEvent :=
  match k with
  | O => (next, inflight, tr)
  | S k' =>
      if andb (Nat.ltb (List.length inflight) concurrency) (Nat.ltb next total)
      then fill k' (S next) (inflight ++ [next]) (tr ++ [Dispatch next])
      else (next, inflight, tr)
  end.

(** Modelled from the spec: the Run loop. While no fault has been observed,
    free slots are refilled; then one in-flight chunk completes, the one the
    thread scheduler picks ([choices], an index into the in-flight chunks).
    The first fault observed is kept; once it is set nothing more is
    dispatched, and the loop ends when no chunk is in flight. *)
Fixpoint run (fuel : nat) (choices : list nat) (st : St) (next : nat)
    (inflight : list nat) (err : option exn) (tr : list SchedEvent)
    : St * list SchedEvent * option exn :=
  match fuel with
  | O => (st, tr, err)
  | S f =>
      let '(next', inflight', tr') :=
        match err with
        | None => fill concurrency next inflight tr
        | Some _ => (next, inflight, tr)
        end in
      match inflight' with
      | [] => (st, tr', err)
      | _ :: _ =>
          let c := Nat.modulo (hd O choices) (List.length inflight') in
          let i := nth c inflight' O in
          let '(st', o) := work i st in
          let err' := match err with Some e => Some e | None => o end in
          run f (tl choices) st' next' (remove_nth c inflight') err' (tr' ++ [Complete i o])
      end
  end.

Definition schedule (choices : list nat) (st : St) : St * list SchedEvent * option exn :=
  run (S total) choices st O [] None [].

End Scheduler.

(** The first fault among the completions of a trace. *)
Fixpoint first_failure (tr : list SchedEvent) : option exn :=
  match tr with
  | [] => None
  | Complete _ (Some e) :: _ => Some e
  | _ :: t => first_failure t
  end.

Definition is_dispatch (ev : SchedEvent) : bool :=
  match ev with Dispatch _ => true | Complete _ _ => false end.

(** No chunk is dispatched after the first failing completion. *)
Fixpoint stops_after_failure (tr : list SchedEvent) : bool :=
  match tr with
  | [] => true
  | Complete _ (Some _) :: t => negb (existsb is_dispatch t)
  | _ :: t => stops_after_failure t
  end.

Section Client.

(** The service behind the pipeline: a server state answering ranged download
    requests and body reads (a read returns the byte count delivered). *)
Variable Server : Type.
Variable svc_download : Server -> option string -> Server * (RawResponse + exn).
Variable svc_read : Server -> nat -> Z -> Server * (Z + exn).
(** [Storage::Details::c_reliableStreamRetryCount]. *)
Variable c_reliableStreamRetryCount : Z.

Record World := { srv : Server; log : list Event }.

Definition M (A : Type) := World -> (A + exn) * World.

Definition ret {A} (a : A) : M A := fun w => (inl a, w).
Definition throw {A} (e : exn) : M A := fun w => (inr e, w).
Definition bind {A B} (m : M A) (k : A -> M B) : M B :=
  fun w => match m w with
           | (inl a, w') => k a w'
           | (inr e, w') => (inr e, w')
           end.
Definition try_ {A} (m : M A) : M (A + exn) :=
  fun w => match m w with (r, w') => (inl r, w') end.
Definition emit (ev : Event) : M unit :=
  fun w => (inl tt, {| srv := srv w; log := log w ++ [ev] |}).

Local Notation "x <- m ;; k" := (bind m (fun x => k))
  (at level 61, m at next level, right associativity).
Local Notation "m ;; k" := (bind m (fun _ => k))
  (at level 61, right associativity).

(** [ShareRestClient::File::Download]: one request through the pipeline. *)
Definition rest_download (range : option string) : M RawResponse :=
  fun w =>
    let '(s', r) := svc_download (srv w) range in
    (r, {| srv := s'; log := log w ++ [Sent range] |}).

(** Reading from a raw network body. *)
Definition raw_read (id : nat) (count : Z) : M Z :=
  fun w => let '(s', r) := svc_read (srv w) id count in (r, {| srv := s'; log := log w |}).

(** [FileClient::Download] (lines 210-267): the ranged request, then the body
    wrapped in a [ReliableStream] that captures [options] and the response's
    ETag. *)
Definition wrap_response (options : DownloadFileOptions) (r : RawResponse)
    : DownloadFileResult :=
  {| ETag := raw_ETag r; LastModified := raw_LastModified r;
     ContentRange := raw_ContentRange r; HttpHeaders := raw_HttpHeaders r;
     Metadata := raw_Metadata r; IsServerEncrypted := raw_IsServerEncrypted r;
     Body := ReliableStream (Some (RawBody (raw_BodyId r) (raw_BodyLength r)))
               options (raw_ETag r) 0 |}.

Definition Download (options : DownloadFileOptions) : M DownloadFileResult :=
  r <- rest_download (download_range options) ;;
  ret (wrap_response options r).

(** [newOptions] of the resume lambda (lines 244-251). *)
Definition retry_options (options : DownloadFileOptions) (retryInfoOffset : Z)
    : DownloadFileOptions :=
  {| Offset := Some (match Offset options with Some o => o | None => 0 end
                     + retryInfoOffset);
     Length := match Length options with
               | Some l => Some (l - retryInfoOffset)
               | None => None
               end |}.

(** The resume lambda [retryFunction] (lines 238-259). *)
Definition retryFunction (options : DownloadFileOptions) (eTag : string)
    (retryInfoOffset : Z) : M BodyStream :=
  let newOptions := retry_options options retryInfoOffset in
  newResponse <- Download newOptions ;;
  if negb (String.eqb eTag (ETag newResponse)) then throw ErrFileChanged
  else r <- Download newOptions ;; ret (Body r).

(** Modelled from the spec: [ReliableStream::OnRead] (common/reliable_stream,
    not in the sources), section 4.3. [rd] reads the inner stream. A stream
    without an inner body first obtains one from its resume function (a fault
    there fails the read at once). A read fault resets the inner body and,
    while attempts remain ([intent] below [MaxRetryRequests]), resumes at the
    delivered offset; a ConsistencyFault is never retried. Delivered bytes
    advance the offset. *)
Definition on_read_loop (rd : BodyStream -> Z -> M (Z * BodyStream))
    (options : DownloadFileOptions) (eTag : string) (off count : Z)
    : nat -> Z -> option BodyStream -> M (Z * BodyStream) :=
  fix loop (g : nat) (intent : Z) (inner : option BodyStream) :=
    match g with
    | O => throw OutOfFuel
    | S g' =>
        cur <- match inner with
               | Some s => ret s
               | None => retryFunction options eTag off
               end ;;
        r <- try_ (rd cur count) ;;
        match r with
        | inl (n, cur') => ret (n, ReliableStream (Some cur') options eTag (off + n))
        | inr e =>
            if is_consistency e || (intent =? c_reliableStreamRetryCount)
            then throw e
            else loop g' (intent + 1) None
        end
    end.

(** [BodyStream::Read] on the modelled streams. *)
Fixpoint read_stream (fuel : nat) (b : BodyStream) (count : Z) {struct fuel}
    : M (Z * BodyStream) :=
  match fuel with
  | O => throw OutOfFuel
  | S f =>
      match b with
      | RawBody id len => n <- raw_read id count ;; ret (n, b)
      | ReliableStream inner options eTag off =>
          on_read_loop (read_stream f) options eTag off count f 1 inner
      end
  end.

(** Nesting bound for the models of the stream loops. *)
Definition stream_fuel : nat := 1000.

(** Modelled from the spec: [BodyStream::ReadToCount] (azure-core, not in the
    sources): reads into [buffer + dest] until [count] bytes are delivered or
    a read returns no byte; returns the total and the advanced stream. *)
Fixpoint read_to_count_loop (fuel : nat) (b : BodyStream) (dest totalRead count : Z)
    : M (Z * BodyStream) :=
  match fuel with
  | O => throw OutOfFuel
  | S f =>
      p <- read_stream stream_fuel b (count - totalRead) ;;
      let '(readBytes, b') := p in
      (if 0 <? readBytes then emit (BufWrite (dest + totalRead) readBytes) else ret tt) ;;
      let totalRead' := totalRead + readBytes in
      if (totalRead' =? count) || (readBytes =? 0) then ret (totalRead', b')
      else read_to_count_loop f b' dest totalRead' count
  end.

Definition ReadToCount (b : BodyStream) (dest count : Z) : M (Z * BodyStream) :=
  read_to_count_loop stream_fuel b dest 0 count.

(** The [ConcurrentTransfer] call: the scheduler above over the client's world
    and the caller's local state [R]; a chunk's fault leaves [R] as it was.
    [transferFunc] receives [(offset, length, chunkId, numChunks)]. *)
Definition ConcurrentTransfer {R} (offset length chunkSize concurrency : Z)
    (choices : list nat) (transferFunc : Z -> Z -> Z -> Z -> R -> M R) (r0 : R) : M R :=
  fun w =>
    let total := Z.to_nat (num_chunks length chunkSize) in
    let work (i : nat) (s : World * R) : (World * R) * option exn :=
      let '(w0, r) := s in
      match transferFunc (chunk_offset offset chunkSize i) (chunk_length length chunkSize i)
              (Z.of_nat i) (Z.of_nat total) r w0 with
      | (inl r', w') => ((w', r'), None)
      | (inr e, w') => ((w', r), Some e)
      end in
    match schedule _ (Z.to_nat concurrency) total work choices (w, r0) with
    | ((w', r'), _, Some e) => (inr e, w')
    | ((w', r'), _, None) => (inl r', w')
    end.

(** *** The buffer overload of [FileClient::DownloadTo] (lines 563-681) *)

(** [std::string::find(char)]: [None] is [npos]. *)
Fixpoint find_char (c : ascii) (s : string) : option nat :=
  match s with
  | EmptyString => None
  | String a t =>
      if Ascii.eqb a c then Some O
      else match find_char c t with Some n => Some (S n) | None => None end
  end.

(** [s.substr(pos + 1)] with [pos = find(...)]; [npos + 1] wraps to [0]. *)
Definition substr_after (pos : option nat) (s : string) : string :=
  match pos with
  | Some n => substring (S n) (String.length s) s
  | None => s
  end.

Definition is_digit (c : ascii) : bool :=
  let n := nat_of_ascii c in (Nat.leb 48 n && Nat.leb n 57)%bool.

Fixpoint parse_digits (s : string) (acc : Z) (seen : bool) : option Z :=
  match s with
  | EmptyString => if seen then Some acc else None
  | String c t =>
      if is_digit c then parse_digits t (acc * 10 + Z.of_nat (nat_of_ascii c - 48)) true
      else if seen then Some acc else None
  end.

Fixpoint skip_spaces (s : string) : string :=
  match s with
  | String " " t => skip_spaces t
  | _ => s
  end.

(** [std::stoll]: leading blanks, an optional sign, the longest digit prefix;
    [invalid_argument] without digits, [out_of_range] outside [int64_t]. *)
Definition stoll (s : string) : Z + exn :=
  let s := skip_spaces s in
  let '(sign, body) := match s with
                       | String "-" t => (-1, t)
                       | String "+" t => (1, t)
                       | _ => (1, s)
                       end in
  match parse_digits body 0 false with
  | Some v =>
      let z := sign * v in
      if (- 2 ^ 63 <=? z) && (z <? 2 ^ 63) then inl z else inr ErrParse
  | None => inr ErrParse
  end.

Definition lift {A} (r : A + exn) : M A :=
  match r with inl a => ret a | inr e => throw e end.

Record DownloadFileToOptions := {
  to_Offset : option Z;
  to_Length : option Z;
  InitialChunkSize : option Z;
  ChunkSize : option Z;
  Concurrency : Z;
}.

Record DownloadFileToResult := {
  to_ETag : string;
  to_LastModified : string;
  to_HttpHeaders : string;
  to_Metadata : list (string * string);
  to_IsServerEncrypted : bool;
  ContentLength : Z;
}.

(** [Details::c_FileDownloadDefaultChunkSize]. *)
Variable c_FileDownloadDefaultChunkSize : Z.

(** The lambda [returnTypeConverter] (lines 625-635). *)
Definition returnTypeConverter (response : DownloadFileResult) : DownloadFileToResult :=
  {| to_ETag := ETag response; to_LastModified := LastModified response;
     to_HttpHeaders := HttpHeaders response; to_Metadata := Metadata response;
     to_IsServerEncrypted := IsServerEncrypted response; ContentLength := 0 |}.

Definition set_ContentLength (r : DownloadFileToResult) (n : Z) : DownloadFileToResult :=
  {| to_ETag := to_ETag r; to_LastModified := to_LastModified r;
     to_HttpHeaders := to_HttpHeaders r; to_Metadata := to_Metadata r;
     to_IsServerEncrypted := to_IsServerEncrypted r; ContentLength := n |}.

(** The assignment that ends [downloadChunkFunc] (lines 656-659). *)
Definition finalize_ret (chunkId numChunks : Z) (chunk : DownloadFileResult)
    (r : DownloadFileToResult) : DownloadFileToResult :=
  if chunkId =? numChunks - 1 then returnTypeConverter chunk else r.

(** The lambda [downloadChunkFunc] (lines 639-660); [r] is the captured [ret]. *)
Definition downloadChunkFunc (firstChunkOffset : Z) (offset length chunkId numChunks : Z)
    (r : DownloadFileToResult) : M DownloadFileToResult :=
  let chunkOptions := {| Offset := Some offset; Length := Some length |} in
  chunk <- Download chunkOptions ;;
  p <- ReadToCount (Body chunk) (offset - firstChunkOffset) length ;;
  let '(bytesRead, _) := p in
  if negb (bytesRead =? length) then throw ErrReadBody
  else ret (finalize_ret chunkId numChunks chunk r).

(** [firstChunkLength] before the first request (lines 571-580). *)
Definition first_chunk_length (options : DownloadFileToOptions) : Z :=
  let l := match InitialChunkSize options with
           | Some v => v
           | None => c_FileDownloadDefaultChunkSize
           end in
  match to_Length options with Some len => Z.min l len | None => l end.

(** [firstChunkOptions] (lines 582-588). *)
Definition first_chunk_options (options : DownloadFileToOptions) : DownloadFileOptions :=
  {| Offset := to_Offset options;
     Length := match to_Offset options with
               | Some _ => Some (first_chunk_length options)
               | None => None
               end |}.

(** [fileRangeSize] (lines 592-608). *)
Definition file_range_size (options : DownloadFileToOptions) (firstChunkOffset : Z)
    (firstChunk : DownloadFileResult) : Z + exn :=
  match Offset (first_chunk_options options) with
  | Some _ =>
      match ContentRange firstChunk with
      | None => inr ErrParse
      | Some cr =>
          match stoll (substr_after (find_char "/" cr) cr) with
          | inr e => inr e
          | inl fileSize =>
              let frs := fileSize - firstChunkOffset in
              inl (match to_Length options with Some l => Z.min frs l | None => frs end)
          end
      end
  | None => inl (body_length (Body firstChunk))
  end.

(** [chunkSize] for the remaining part (lines 664-675); C++ division truncates. *)
Definition remaining_chunk_size (options : DownloadFileToOptions) (remainingSize : Z) : Z :=
  match ChunkSize options with
  | Some c => c
  | None =>
      let c_grainSize := 4 * 1024 in
      let c := Z.quot remainingSize (Concurrency options) in
      let c := (Z.max c 1 + c_grainSize - 1) / c_grainSize * c_grainSize in
      Z.min c c_FileDownloadDefaultChunkSize
  end.

(** [FileClient::DownloadTo(uint8_t*, size_t, options)]; [choices] is the
    completion order the thread scheduler picks for the parallel part. *)
Definition DownloadTo (bufferSize : Z) (options : DownloadFileToOptions)
    (choices : list nat) : M DownloadFileToResult :=
  let firstChunkOffset := match to_Offset options with Some o => o | None => 0 end in
  let firstChunkOptions := first_chunk_options options in
  firstChunk <- Download firstChunkOptions ;;
  fileRangeSize <- lift (file_range_size options firstChunkOffset firstChunk) ;;
  let firstChunkLength := Z.min (first_chunk_length options) fileRangeSize in
  if bufferSize <? fileRangeSize mod 2 ^ 64
  then throw (ErrBufferNotBigEnough fileRangeSize)
  else
    p <- ReadToCount (Body firstChunk) 0 firstChunkLength ;;
    let '(bytesRead, _) := p in
    if negb (bytesRead =? firstChunkLength) then throw ErrReadBody
    else
      let ret0 := returnTypeConverter firstChunk in
      let remainingOffset := firstChunkOffset + firstChunkLength in
      let remainingSize := fileRangeSize - firstChunkLength in
      let chunkSize := remaining_chunk_size options remainingSize in
      r <- ConcurrentTransfer remainingOffset remainingSize chunkSize (Concurrency options)
             choices (downloadChunkFunc firstChunkOffset) ret0 ;;
      ret (set_ContentLength r fileRangeSize).

End Client.

(* ------------------------------------------------------------------------- *)
(** ** [HttpPipeline] construction *)

Inductive HttpPolicy :=
| TelemetryPolicy (packageName packageVersion : string)
| RequestIdPolicy
| RetryPolicy
| TransportPolicy.

(** The pipeline holds its policies ([std::unique_ptr], possibly null). *)
Record HttpPipeline := { m_policies : list (option HttpPolicy) }.

Definition clone_policy (p : option HttpPolicy) : option HttpPolicy := p.

(** Modelled from the spec: the [HttpPipeline] constructor from a vector it
    copies (each policy cloned), azure-core pipeline.hpp not in the sources;
    zero policies are a ConfigError, thrown as [std::invalid_argument]
    (test/ut/pipeline.cpp). *)
Definition HttpPipeline_copy (policies : list (option HttpPolicy)) : HttpPipeline + exn :=
  match policies with
  | [] => inr ErrInvalidArgument
  | _ => inl {| m_policies := map clone_policy policies |}
  end.

(** Modelled from the spec: the [HttpPipeline] constructor from a vector it
    takes over ([std::vector&&]). *)
Definition HttpPipeline_move (policies : list (option HttpPolicy)) : HttpPipeline + exn :=
  match policies with
  | [] => inr ErrInvalidArgument
  | _ => inl {| m_policies := policies |}
  end.

(* ------------------------------------------------------------------------- *)
(** ** Specifications of effectful steps *)

Section LogSpecs.

Variable Server : Type.

(** [sat P Q m]: from any world, [m] only appends events satisfying [P] to the
    log, and each value it returns satisfies [Q]. *)
Definition sat {A} (P : Event -> Prop) (Q : A -> Prop) (m : M Server A) : Prop :=
  forall w, let '(r, w') := m w in
    (exists l, log _ w' = log _ w ++ l /\ Forall P l) /\ (forall a, r = inl a -> Q a).

End LogSpecs.

Arguments sat {Server A} P Q m.

(** A buffer write stores a non-empty byte run inside [[lo, hi)]; requests
    are unconstrained. *)
Definition ev_within (lo hi : Z) (ev : Event) : Prop :=
  match ev with
  | Sent _ => True
  | BufWrite a c => lo <= a /\ 0 < c /\ a + c <= hi
  end.

(* ------------------------------------------------------------------------- *)
(** ** A concrete service, for running the model *)

Module TestService.

(** A file of [size] bytes; the [k]-th download answers with the [k]-th ETag of
    [etags] (the last one repeats); reads of the bodies listed in [faulty] fail. *)
Record State := {
  size : Z;
  etags : list string;
  faulty : list nat;
  served : nat;
  bodies : list (nat * Z);
}.

Definition init (n : Z) (etags : list string) (faulty : list nat) : State :=
  {| size := n; etags := etags; faulty := faulty; served := O; bodies := [] |}.

Definition etag_at (l : list string) (k : nat) : string :=
  nth k l (last l EmptyString).

Fixpoint prefix_of (p s : string) : option string :=
  match p, s with
  | EmptyString, _ => Some s
  | String a p', String b s' => if Ascii.eqb a b then prefix_of p' s' else None
  | _, _ => None
  end.

Fixpoint split_dash (s : string) : string * string :=
  match s with
  | EmptyString => (EmptyString, EmptyString)
  | String "-" t => (EmptyString, t)
  | String c t => let '(a, b) := split_dash t in (String c a, b)
  end.

(** The served byte range [[start, end]] for a [Range] header. *)
Definition served_range (n : Z) (range : option string) : Z * Z :=
  match range with
  | None => (0, n - 1)
  | Some r =>
      match prefix_of "bytes=" r with
      | None => (0, n - 1)
      | Some t =>
          let '(a, b) := split_dash t in
          let a := match parse_digits a 0 false with Some v => v | None => 0 end in
          let b := match parse_digits b 0 false with Some v => Z.min v (n - 1) | None => n - 1 end in
          (a, b)
      end
  end.

Definition download (s : State) (range : option string) : State * (RawResponse + exn) :=
  let '(a, b) := served_range (size s) range in
  let id := served s in
  let s' := {| size := size s; etags := etags s; faulty := faulty s; served := S id;
               bodies := (id, b - a + 1) :: bodies s |} in
  (s', inl {| raw_ETag := etag_at (etags s) id; raw_LastModified := "";
              raw_ContentRange :=
                match range with
                | Some _ => Some ("bytes " ++ to_string a ++ "-" ++ to_string b ++ "/"
                                  ++ to_string (size s))%string
                | None => None
                end;
              raw_HttpHeaders := ""; raw_Metadata := []; raw_IsServerEncrypted := true;
              raw_BodyId := id; raw_BodyLength := b - a + 1 |}).

Fixpoint remaining (l : list (nat * Z)) (id : nat) : Z :=
  match l with
  | [] => 0
  | (k, r) :: t => if Nat.eqb k id then r else remaining t id
  end.

Definition read (s : State) (id : nat) (count : Z) : State * (Z + exn) :=
  if existsb (Nat.eqb id) (faulty s) then (s, inr (ErrTransport "connection reset"))
  else
    let n := Z.min count (remaining (bodies s) id) in
    ({| size := size s; etags := etags s; faulty := faulty s; served := served s;
        bodies := (id, remaining (bodies s) id - n) :: bodies s |}, inl n).

Definition world (s : State) : World State := {| srv := s; log := [] |}.

(** [read] with a count that is clamped below at zero: a read never reports a
    negative number of bytes. *)
Definition read_ok (s : State) (id : nat) (count : Z) : State * (Z + exn) :=
  let '(s', r) := read s id count in
  (s', match r with inl n => inl (Z.max 0 n) | inr e => inr e end).

End TestService.

(* ------------------------------------------------------------------------- *)
(** ** Concrete runs *)

Module Scenarios.

Import TestService.

(** The default chunk size constant and the resume budget are library
    constants outside the sources; the runs give [InitialChunkSize] and
    [ChunkSize] explicitly and have no read fault, so neither value matters. *)
Definition default_chunk : Z := 4 * 1024 * 1024.
Definition retries : Z := 3.

(** A [10,485,760]-byte file downloaded into a buffer of that size with
    [ChunkSize = 4,194,304], [Concurrency = 3], [InitialChunkSize = 1,048,576]. *)
Definition big_options (off : option Z) : DownloadFileToOptions :=
  {| to_Offset := off; to_Length := None; InitialChunkSize := Some 1048576;
     ChunkSize := Some 4194304; Concurrency := 3 |}.

Definition big_run (off : option Z) (choices : list nat)
    : (DownloadFileToResult + exn) * World State :=
  DownloadTo State download read retries default_chunk 10485760 (big_options off) choices
    (world (init 10485760 ["0x8D8"%string] [])).

Definition content_length_is (n : Z) (r : DownloadFileToResult + exn) : bool :=
  match r with inl ret => ContentLength ret =? n | inr _ => false end.

(** All six completion orders of three chunks. *)
Definition all_orders : list (list nat) :=
  [[0; 0]; [0; 1]; [1; 0]; [1; 1]; [2; 0]; [2; 1]]%nat.

(** A scheduler run where chunk 1 of 3 fails and chunk 2 succeeds after it. *)
Definition one_failing_work (i : nat) (u : unit) : unit * option exn :=
  (u, if Nat.eqb i 1 then Some (ErrService 409) else None).

Definition small_state : State := init 100 ["0x8D8"%string] [].

Definition resume_options : DownloadFileOptions := {| Offset := Some 0; Length := Some 100 |}.

End Scenarios.

(* ========================================================================= *)
(** * Properties *)

Section ResumeProofs.

Variable Server : Type.
Variable svc_download : Server -> option string -> Server * (RawResponse + exn).
Variable MaxRetryRequests : Z.

Lemma Download_step (options : DownloadFileOptions) (w : World Server) s' r :
  svc_download (srv _ w) (download_range options) = (s', inl r) ->
  Download Server svc_download options w =
  (inl (wrap_response options r),
   {| srv := s'; log := log _ w ++ [Sent (download_range options)] |}).
Proof.
  intros H. unfold Download, bind, rest_download, ret. rewrite H. reflexivity.
Qed.

Lemma Download_fail (options : DownloadFileOptions) (w : World Server) s' e :
  svc_download (srv _ w) (download_range options) = (s', inr e) ->
  Download Server svc_download options w =
  (inr e, {| srv := s'; log := log _ w ++ [Sent (download_range options)] |}).
Proof.
  intros H. unfold Download, bind, rest_download. rewrite H. reflexivity.
Qed.

(** C1: on every resume of a [ReliableStream] (the loop reaching a reset inner
    body, whatever the remaining budget and attempt number), when the response
    to the resume request carries an ETag other than the one captured when the
    stream was opened, the read fails with [ErrFileChanged], a ConsistencyFault,
    and exactly one request, the compared one, has been sent: no body is taken
    from a second request and no further resume is attempted. *)
Theorem resume_etag_mismatch_fails
    (rd : BodyStream -> Z -> M Server (Z * BodyStream))
    (options : DownloadFileOptions) (eTag : string) (off count : Z)
    (g : nat) (intent : Z) (w : World Server) (s1 : Server) (r : RawResponse) :
  svc_download (srv _ w) (download_range (retry_options options off)) = (s1, inl r) ->
  raw_ETag r <> eTag ->
  on_read_loop Server svc_download MaxRetryRequests rd options eTag off count (S g) intent None w
  = (inr ErrFileChanged,
     {| srv := s1; log := log _ w ++ [Sent (download_range (retry_options options off))] |})
  /\ fault_kind ErrFileChanged = ConsistencyFault.
Proof.
  intros Hd Hne. split; [| reflexivity].
  cbn [on_read_loop]. unfold bind at 1. unfold retryFunction, bind at 1.
  rewrite (Download_step _ _ _ _ Hd). cbn [ETag wrap_response].
  destruct (String.eqb eTag (raw_ETag r)) eqn:E.
  - apply String.eqb_eq in E. congruence.
  - reflexivity.
Qed.

(** C2: the resume request issued after [k] delivered bytes is the first
    request the resume function sends; its options start at
    [originalStart + k] (an absent [Offset] counts as [0]) and carry
    [L - k] when the caller gave a [Length] [L], none otherwise; so its range
    header is [bytes=(originalStart+k)-(originalStart+L-1)], the original end,
    or [bytes=(originalStart+k)-] to the end of the file. *)
Theorem resume_request_range (options : DownloadFileOptions) (eTag : string) (k : Z)
    (w : World Server) :
  let start := match Offset options with Some o => o | None => 0 end in
  (exists rest, log _ (snd (retryFunction Server svc_download options eTag k w))
                = log _ w ++ Sent (download_range (retry_options options k)) :: rest)
  /\ Offset (retry_options options k) = Some (start + k)
  /\ Length (retry_options options k)
     = match Length options with Some L => Some (L - k) | None => None end
  /\ download_range (retry_options options k)
     = Some ("bytes=" ++ to_string (start + k) ++ "-"
             ++ match Length options with
                | Some L => to_string (start + L - 1)
                | None => ""
                end)%string.
Proof.
  intros start. split; [| split; [| split]].
  - unfold retryFunction, bind at 1.
    destruct (svc_download (srv _ w) (download_range (retry_options options k)))
      as [s1 [r1 | e1]] eqn:H1.
    + rewrite (Download_step _ _ _ _ H1). cbn [ETag wrap_response].
      destruct (negb (String.eqb eTag (raw_ETag r1))).
      * exists []. reflexivity.
      * unfold bind. set (w1 := {| srv := s1; log := _ |}).
        destruct (svc_download (srv _ w1) (download_range (retry_options options k)))
          as [s2 [r2 | e2]] eqn:H2.
        -- rewrite (Download_step _ _ _ _ H2). exists [Sent (download_range (retry_options options k))].
           cbn. rewrite <- app_assoc. reflexivity.
        -- rewrite (Download_fail _ _ _ _ H2). exists [Sent (download_range (retry_options options k))].
           cbn. rewrite <- app_assoc. reflexivity.
    + rewrite (Download_fail _ _ _ _ H1). exists []. reflexivity.
  - reflexivity.
  - reflexivity.
  - unfold download_range, retry_options. cbn [Offset Length]. fold start.
    destruct (Length options) as [L |].
    + do 4 f_equal. f_equal. ring.
    + reflexivity.
Qed.

(** C3: when the ETag check passes, the resume function sends the same ranged
    request twice: the first response only feeds the comparison, and the
    stream it returns is the second response's body, wrapped in a new
    [ReliableStream] that captures the second response's own ETag; that ETag is
    not compared with the original one (the statement holds whatever it is). *)
Theorem resume_downloads_twice (options : DownloadFileOptions) (eTag : string) (k : Z)
    (w : World Server) (s1 s2 : Server) (r1 r2 : RawResponse) :
  svc_download (srv _ w) (download_range (retry_options options k)) = (s1, inl r1) ->
  raw_ETag r1 = eTag ->
  svc_download s1 (download_range (retry_options options k)) = (s2, inl r2) ->
  retryFunction Server svc_download options eTag k w =
  (inl (ReliableStream (Some (RawBody (raw_BodyId r2) (raw_BodyLength r2)))
          (retry_options options k) (raw_ETag r2) 0),
   {| srv := s2;
      log := log _ w ++ [Sent (download_range (retry_options options k));
                          Sent (download_range (retry_options options k))] |}).
Proof.
  intros H1 He H2. unfold retryFunction, bind at 1.
  rewrite (Download_step _ _ _ _ H1). cbn [ETag wrap_response].
  rewrite He, String.eqb_refl. cbn [negb].
  unfold bind.
  rewrite (Download_step _ {| srv := s1;
                              log := log _ w ++ [Sent (download_range (retry_options options k))] |}
             _ _ H2).
  cbn. rewrite <- app_assoc. reflexivity.
Qed.

End ResumeProofs.

Section ChunkPlanProofs.

Lemma lt_num_chunks (L cs : Z) (i : nat) :
  0 < cs -> (Z.of_nat i < num_chunks L cs <-> cs * Z.of_nat i < L).
Proof.
  intros Hcs. unfold num_chunks.
  pose proof (Z.div_mod (L + cs - 1) cs ltac:(lia)) as Hdm.
  pose proof (Z.mod_pos_bound (L + cs - 1) cs Hcs) as Hb.
  set (q := (L + cs - 1) / cs) in *. set (r := (L + cs - 1) mod cs) in *.
  split; intros H; nia.
Qed.

Lemma nth_error_chunk_plan (s L cs : Z) (i : nat) x :
  0 < cs ->
  nth_error (chunk_plan s L cs) i = Some x <->
  cs * Z.of_nat i < L /\ x = (chunk_offset s cs i, chunk_length L cs i, Z.of_nat i).
Proof.
  intros Hcs. unfold chunk_plan. rewrite nth_error_map, nth_error_seq.
  destruct (Nat.ltb i (Z.to_nat (num_chunks L cs))) eqn:E.
  - apply Nat.ltb_lt in E.
    assert (Z.of_nat i < num_chunks L cs) as Hi by lia.
    apply (lt_num_chunks L cs i Hcs) in Hi. cbn. split.
    + intros H. inversion H. auto.
    + intros [_ ->]. reflexivity.
  - apply Nat.ltb_ge in E. cbn. split; [discriminate |].
    intros [H _]. apply (lt_num_chunks L cs i Hcs) in H. lia.
Qed.

Lemma In_chunk_plan (s L cs : Z) x :
  0 < cs ->
  In x (chunk_plan s L cs) <->
  exists i, cs * Z.of_nat i < L /\ x = (chunk_offset s cs i, chunk_length L cs i, Z.of_nat i).
Proof.
  intros Hcs. split.
  - intros H. apply In_nth_error in H as [i Hi].
    apply nth_error_chunk_plan in Hi; [| lia]. eauto.
  - intros [i Hi]. apply (nth_error_In _ i). apply nth_error_chunk_plan; auto.
Qed.

Lemma length_chunk_plan (s L cs : Z) :
  List.length (chunk_plan s L cs) = Z.to_nat (num_chunks L cs).
Proof. unfold chunk_plan. rewrite length_map, length_seq. reflexivity. Qed.

(** C4: for a positive [chunkSize], the Chunk Plan for
    [(rangeStart, rangeLength, chunkSize)] lists chunk [i] at position [i]; it
    starts at [rangeStart], each chunk begins where the previous one ends
    (ordered, gap-free), no two chunks overlap, every chunk is non-empty and
    has [chunkSize] bytes except possibly the last, which is shorter or equal,
    and a byte lies in some chunk exactly when it lies in
    [[rangeStart, rangeStart + rangeLength)]. *)
Theorem chunk_plan_partition (rangeStart rangeLength chunkSize : Z) :
  0 < chunkSize ->
  let plan := chunk_plan rangeStart rangeLength chunkSize in
  (forall i o l c, nth_error plan i = Some (o, l, c) ->
     c = Z.of_nat i /\ 0 < l <= chunkSize /\ ((S i < List.length plan)%nat -> l = chunkSize))
  /\ (forall o l c, nth_error plan O = Some (o, l, c) -> o = rangeStart)
  /\ (forall i o l c o' l' c', nth_error plan i = Some (o, l, c) ->
        nth_error plan (S i) = Some (o', l', c') -> o' = o + l)
  /\ (forall i j o l c o' l' c', (i < j)%nat -> nth_error plan i = Some (o, l, c) ->
        nth_error plan j = Some (o', l', c') -> o + l <= o')
  /\ (forall x, (exists o l c, In (o, l, c) plan /\ o <= x < o + l)
                <-> rangeStart <= x < rangeStart + rangeLength).
Proof.
  intros Hcs plan. unfold plan.
  split; [| split; [| split; [| split]]].
  - intros i o l c H. apply nth_error_chunk_plan in H as [Hi Hx]; [| exact Hcs].
    inversion Hx; subst. unfold chunk_length.
    split; [reflexivity | split; [lia |]].
    intros Hn. rewrite length_chunk_plan in Hn.
    assert (Z.of_nat (S i) < num_chunks rangeLength chunkSize) as HS by lia.
    apply (lt_num_chunks _ _ _ Hcs) in HS. lia.
  - intros o l c H. apply nth_error_chunk_plan in H as [_ Hx]; [| exact Hcs].
    inversion Hx. unfold chunk_offset. lia.
  - intros i o l c o' l' c' H H'.
    apply nth_error_chunk_plan in H as [Hi Hx]; [| exact Hcs].
    apply nth_error_chunk_plan in H' as [Hi' Hx']; [| exact Hcs].
    inversion Hx; inversion Hx'; subst. unfold chunk_offset, chunk_length. lia.
  - intros i j o l c o' l' c' Hij H H'.
    apply nth_error_chunk_plan in H as [Hi Hx]; [| exact Hcs].
    apply nth_error_chunk_plan in H' as [Hi' Hx']; [| exact Hcs].
    inversion Hx; inversion Hx'; subst. unfold chunk_offset, chunk_length. nia.
  - intros x. split.
    + intros (o & l & c & Hin & Hx).
      apply In_chunk_plan in Hin as [i [Hi Heq]]; [| exact Hcs].
      inversion Heq; subst. unfold chunk_offset, chunk_length in *. nia.
    + intros Hx.
      set (i := Z.to_nat ((x - rangeStart) / chunkSize)).
      pose proof (Z.div_mod (x - rangeStart) chunkSize ltac:(lia)) as Hdm.
      pose proof (Z.mod_pos_bound (x - rangeStart) chunkSize Hcs) as Hb.
      assert (0 <= (x - rangeStart) / chunkSize) by (apply Z.div_pos; lia).
      assert (Z.of_nat i = (x - rangeStart) / chunkSize) as Hi by (unfold i; lia).
      exists (chunk_offset rangeStart chunkSize i), (chunk_length rangeLength chunkSize i),
             (Z.of_nat i).
      split.
      * apply In_chunk_plan; [exact Hcs |]. exists i. split; [nia | reflexivity].
      * unfold chunk_offset, chunk_length. rewrite Hi. nia.
Qed.

End ChunkPlanProofs.

Section SchedulerProofs.

Variable St : Type.
Variable concurrency total : nat.
Variable work : nat -> St -> St * option exn.

Lemma first_failure_app (a b : list SchedEvent) :
  first_failure (a ++ b) =
  match first_failure a with Some e => Some e | None => first_failure b end.
Proof.
  induction a as [| ev a IH]; [reflexivity |].
  destruct ev as [i | i [e |]]; cbn; auto.
Qed.

Lemma stops_after_failure_app (a b : list SchedEvent) :
  stops_after_failure (a ++ b) =
  stops_after_failure a &&
  match first_failure a with
  | Some _ => negb (existsb is_dispatch b)
  | None => stops_after_failure b
  end.
Proof.
  induction a as [| ev a IH]; [reflexivity |].
  destruct ev as [i | i [e |]]; cbn; auto.
  rewrite existsb_app. destruct (existsb is_dispatch a), (existsb is_dispatch b); reflexivity.
Qed.

Lemma first_failure_dispatches (ds : list nat) :
  first_failure (map Dispatch ds) = None.
Proof. induction ds; cbn; auto. Qed.

Lemma stops_after_failure_dispatches (ds : list nat) :
  stops_after_failure (map Dispatch ds) = true.
Proof. induction ds; cbn; auto. Qed.

Lemma failing_complete_first_failure (tr : list SchedEvent) i e :
  In (Complete i (Some e)) tr -> first_failure tr <> None.
Proof.
  induction tr as [| ev tr IH]; [cbn; tauto |].
  intros [E | H]; [subst; cbn; discriminate |].
  destruct ev as [j | j [e' |]]; cbn; auto; discriminate.
Qed.

Lemma remove_nth_In {A} (l : list A) (c : nat) (d j : A) :
  (c < List.length l)%nat -> In j l -> j = nth c l d \/ In j (remove_nth c l).
Proof.
  revert c. induction l as [| h t IH]; intros c Hc Hin; cbn in *; [lia |].
  destruct c as [| c].
  - destruct Hin as [<- | H]; auto.
  - destruct Hin as [<- | H]; [right; left; reflexivity |].
    destruct (IH c ltac:(lia) H) as [E | E]; auto. right; right; exact E.
Qed.

Lemma remove_nth_length {A} (l : list A) (c : nat) :
  (c < List.length l)%nat -> List.length (remove_nth c l) = (List.length l - 1)%nat.
Proof.
  revert c. induction l as [| h t IH]; intros c Hc; cbn in *; [lia |].
  destruct c as [| c]; cbn; [lia |]. rewrite IH by lia. lia.
Qed.

Lemma fill_spec (k next : nat) (inflight : list nat) (tr : list SchedEvent) :
  (next <= total)%nat ->
  let '(next', inflight', tr') := fill concurrency total k next inflight tr in
  exists ds, tr' = tr ++ map Dispatch ds /\ inflight' = inflight ++ ds
             /\ next' = (next + List.length ds)%nat /\ (next' <= total)%nat.
Proof.
  revert next inflight tr. induction k as [| k IH]; intros next inflight tr Hn; cbn [fill].
  - exists []. rewrite !app_nil_r. split; [| split; [| split]]; auto.
  - destruct (andb (Nat.ltb (List.length inflight) concurrency) (Nat.ltb next total)) eqn:E.
    + apply andb_true_iff in E as [_ E]. apply Nat.ltb_lt in E.
      specialize (IH (S next) (inflight ++ [next]) (tr ++ [Dispatch next]) ltac:(lia)).
      destruct (fill concurrency total k (S next) (inflight ++ [next]) (tr ++ [Dispatch next]))
        as [[n' i'] t'].
      destruct IH as (ds & -> & -> & -> & Hle).
      exists (next :: ds). rewrite <- !app_assoc. cbn. split; [| split; [| split]]; auto; lia.
    + exists []. rewrite !app_nil_r. split; [| split; [| split]]; auto; lia.
Qed.

Lemma run_spec (fuel : nat) (choices : list nat) (st : St) (next : nat)
    (inflight : list nat) (err : option exn) (tr : list SchedEvent) st' tr' err' :
  run St concurrency total work fuel choices st next inflight err tr = (st', tr', err') ->
  (total - next + List.length inflight < fuel)%nat -> (next <= total)%nat ->
  err = first_failure tr -> stops_after_failure tr = true ->
  (forall j, In (Dispatch j) tr -> (exists o, In (Complete j o) tr) \/ In j inflight) ->
  err' = first_failure tr' /\ stops_after_failure tr' = true
  /\ (forall j, In (Dispatch j) tr' -> exists o, In (Complete j o) tr').
Proof.
  revert choices st next inflight err tr.
  induction fuel as [| f IH]; intros choices st next inflight err tr Hrun Hm Hn Herr Hstop Hdisp;
    [lia |].
  cbn [run] in Hrun.
  (* the state after refilling the worker slots *)
  assert (exists next1 inflight1 tr1,
            (match err with
             | None => fill concurrency total concurrency next inflight tr
             | Some _ => (next, inflight, tr)
             end) = (next1, inflight1, tr1)
            /\ (total - next1 + List.length inflight1 = total - next + List.length inflight)%nat
            /\ (next1 <= total)%nat /\ err = first_failure tr1 /\ stops_after_failure tr1 = true
            /\ (forall j, In (Dispatch j) tr1 -> (exists o, In (Complete j o) tr1) \/ In j inflight1))
    as (next1 & inflight1 & tr1 & Hfill & Hm1 & Hn1 & Herr1 & Hstop1 & Hdisp1).
  { destruct err as [e |].
    - exists next, inflight, tr. auto 10.
    - pose proof (fill_spec concurrency next inflight tr Hn) as Hf.
      destruct (fill concurrency total concurrency next inflight tr) as [[n1 i1] t1].
      destruct Hf as (ds & -> & -> & -> & Hle).
      exists (next + List.length ds)%nat, (inflight ++ ds), (tr ++ map Dispatch ds).
      split; [reflexivity |]. split; [rewrite length_app; lia |]. split; [exact Hle |].
      split; [rewrite first_failure_app, <- Herr, first_failure_dispatches; reflexivity |].
      split; [rewrite stops_after_failure_app, Hstop, <- Herr, stops_after_failure_dispatches;
              reflexivity |].
      intros j Hj. apply in_app_or in Hj as [Hj | Hj].
      + destruct (Hdisp j Hj) as [[o Ho] | Ho].
        * left. exists o. apply in_or_app. left. exact Ho.
        * right. apply in_or_app. left. exact Ho.
      + right. apply in_or_app. right. apply in_map_iff in Hj as (j' & Ej & Hj').
        inversion Ej; subst. exact Hj'. }
  rewrite Hfill in Hrun.
  destruct inflight1 as [| h t] eqn:Hinf.
  - inversion Hrun; subst. split; [exact Herr1 | split; [exact Hstop1 |]].
    intros j Hj. destruct (Hdisp1 j Hj) as [Ho | []]. exact Ho.
  - rewrite <- Hinf in *.
    set (c := Nat.modulo (hd O choices) (List.length inflight1)) in Hrun.
    assert (Hc : (c < List.length inflight1)%nat)
      by (unfold c; apply Nat.mod_upper_bound; rewrite Hinf; discriminate).
    destruct (work (nth c inflight1 O) st) as [st1 o] eqn:Hw.
    eapply IH; [exact Hrun | | exact Hn1 | | |].
    + rewrite remove_nth_length by exact Hc. lia.
    + rewrite first_failure_app, <- Herr1. destruct err, o; reflexivity.
    + rewrite stops_after_failure_app, Hstop1, <- Herr1.
      destruct err, o; reflexivity.
    + intros j Hj. apply in_app_or in Hj as [Hj | [Hj | []]]; [| discriminate].
      destruct (Hdisp1 j Hj) as [[o' Ho] | Ho].
      * left. exists o'. apply in_or_app. left. exact Ho.
      * destruct (remove_nth_In inflight1 c O j Hc Ho) as [E | E].
        -- left. exists o. apply in_or_app. right. left. rewrite E. reflexivity.
        -- right. exact E.
Qed.

(** C5: in every run of the scheduler, whatever the completion order the
    thread scheduler picks ([choices]) and whatever the workers do, the outcome
    is the first fault among the completions in the order they happened (none
    when all chunks succeed); no chunk is dispatched after the first failing
    completion; every dispatched chunk completes before the run returns; so as
    soon as one chunk fails, the run reports a fault, even when the other
    chunks, the last one included, succeed. *)
Theorem schedule_surfaces_first_fault (choices : list nat) (st st' : St)
    (tr : list SchedEvent) (err : option exn) :
  schedule St concurrency total work choices st = (st', tr, err) ->
  err = first_failure tr
  /\ stops_after_failure tr = true
  /\ (forall j, In (Dispatch j) tr -> exists o, In (Complete j o) tr)
  /\ ((exists i e, In (Complete i (Some e)) tr) -> exists e0, err = Some e0).
Proof.
  intros H. unfold schedule in H.
  destruct (run_spec _ _ _ _ _ _ _ _ _ _ H) as (Herr & Hstop & Hdisp);
    cbn; auto; try lia; try tauto.
  split; [exact Herr | split; [exact Hstop | split; [exact Hdisp |]]].
  intros (i & e & Hin). apply failing_complete_first_failure in Hin.
  rewrite Herr. destruct (first_failure tr) as [e0 |]; [eauto | congruence].
Qed.

End SchedulerProofs.

Section DownloadToProofs.

Variable Server : Type.
Variable svc_download : Server -> option string -> Server * (RawResponse + exn).
Variable svc_read : Server -> nat -> Z -> Server * (Z + exn).
Variable MaxRetryRequests : Z.
Variable c_FileDownloadDefaultChunkSize : Z.

Lemma fold_finalize_other (n : Z) (l : list (Z * DownloadFileResult)) r :
  (forall c, In c l -> fst c <> n - 1) ->
  fold_left (fun r c => finalize_ret (fst c) n (snd c) r) l r = r.
Proof.
  revert r. induction l as [| [id ch] t IH]; intros r H; [reflexivity |].
  cbn. unfold finalize_ret at 2.
  assert (id <> n - 1) as Hid by (apply (H (id, ch)); left; reflexivity).
  apply Z.eqb_neq in Hid. rewrite Hid. apply IH. intros c Hc. apply H. right. exact Hc.
Qed.

(** C6: every successful run of [downloadChunkFunc] for chunk [chunkId] of
    [numChunks] took the response [resp] to its own ranged request and leaves
    the transfer-level result [ret] as the converted [resp] exactly when
    [chunkId = numChunks - 1], unchanged otherwise (a failing run assigns
    nothing); and over any completion order of chunks with distinct indices,
    the final [ret] is the converted response of the chunk of index
    [numChunks - 1] if it completed, the initial one otherwise: it depends on
    the completed chunks, not on their order. *)
Theorem finalize_by_last_index :
  (forall (firstChunkOffset offset length chunkId numChunks : Z)
          (r r' : DownloadFileToResult) (w w' : World Server),
     downloadChunkFunc Server svc_download svc_read MaxRetryRequests firstChunkOffset
       offset length chunkId numChunks r w = (inl r', w') ->
     exists s resp,
       svc_download (srv _ w)
         (download_range {| Offset := Some offset; Length := Some length |}) = (s, inl resp)
       /\ r' = if chunkId =? numChunks - 1
               then returnTypeConverter
                      (wrap_response {| Offset := Some offset; Length := Some length |} resp)
               else r)
  /\ (forall (numChunks : Z) (completions : list (Z * DownloadFileResult))
             (r0 : DownloadFileToResult),
        NoDup (map fst completions) ->
        fold_left (fun r c => finalize_ret (fst c) numChunks (snd c) r) completions r0
        = match find (fun c => fst c =? numChunks - 1) completions with
          | Some c => returnTypeConverter (snd c)
          | None => r0
          end).
Proof.
  split.
  - intros firstChunkOffset offset length chunkId numChunks r r' w w' H.
    unfold downloadChunkFunc, bind at 1 in H.
    destruct (svc_download (srv _ w)
                (download_range {| Offset := Some offset; Length := Some length |}))
      as [s [resp | e]] eqn:Hd.
    + exists s, resp. split; [reflexivity |].
      rewrite (Download_step _ _ _ _ _ _ Hd) in H. unfold bind in H.
      destruct (ReadToCount _ _ _ _ _ _ _ _) as [[[n b] | e] w2]; [| discriminate].
      destruct (negb (n =? length)); [discriminate |].
      inversion H. reflexivity.
    + rewrite (Download_fail _ _ _ _ _ _ Hd) in H. discriminate.
  - intros numChunks completions. induction completions as [| [id ch] t IH]; intros r0 Hnd;
      [reflexivity |].
    cbn in Hnd |- *. inversion Hnd as [| x l Hnotin Hnd']; subst.
    unfold finalize_ret at 2. destruct (id =? numChunks - 1) eqn:E.
    + apply fold_finalize_other. intros [id' ch'] Hin E'. cbn in E'.
      apply Z.eqb_eq in E. apply Hnotin. apply in_map_iff. exists (id', ch').
      split; [cbn; lia | exact Hin].
    + apply IH. exact Hnd'.
Qed.

(** C9: in the buffer overload of [DownloadTo], when the file range size
    resolved from the first response exceeds [bufferSize], the call fails with
    [ErrBufferNotBigEnough], a ConfigFault, right after the first request: the
    only event is that request, so no byte reached the buffer, no chunk was
    requested and nothing was sent again. *)
Theorem DownloadTo_buffer_too_small (bufferSize : Z) (options : DownloadFileToOptions)
    (choices : list nat) (w : World Server) (s1 : Server) (resp : RawResponse) (frs : Z) :
  svc_download (srv _ w) (download_range (first_chunk_options c_FileDownloadDefaultChunkSize options))
    = (s1, inl resp) ->
  file_range_size c_FileDownloadDefaultChunkSize options
    (match to_Offset options with Some o => o | None => 0 end)
    (wrap_response (first_chunk_options c_FileDownloadDefaultChunkSize options) resp) = inl frs ->
  0 <= bufferSize < frs -> frs < 2 ^ 63 ->
  DownloadTo Server svc_download svc_read MaxRetryRequests c_FileDownloadDefaultChunkSize
    bufferSize options choices w
  = (inr (ErrBufferNotBigEnough frs),
     {| srv := s1;
        log := log _ w ++ [Sent (download_range
                                  (first_chunk_options c_FileDownloadDefaultChunkSize options))] |})
  /\ fault_kind (ErrBufferNotBigEnough frs) = ConfigFault.
Proof.
  intros Hd Hfrs Hb Hmax. split; [| reflexivity].
  unfold DownloadTo, bind at 1. rewrite (Download_step _ _ _ _ _ _ Hd).
  unfold bind at 1. rewrite Hfrs. cbn [lift ret].
  rewrite Z.mod_small by lia.
  destruct (bufferSize <? frs) eqn:E; [reflexivity |].
  apply Z.ltb_ge in E. lia.
Qed.

End DownloadToProofs.

Section ConcreteProofs.

Import Scenarios.

(** C7 (counterexample): with no [Offset] given, the first request of
    [DownloadTo] in the 10 MiB scenario carries no range header at all (the
    whole file is requested), not [bytes=0-1048575]. *)
Lemma DownloadTo_first_request_unranged :
  hd_error (log _ (snd (big_run None []))) = Some (Sent None)
  /\ hd_error (log _ (snd (big_run None []))) <> Some (Sent (Some "bytes=0-1048575"%string)).
Proof. split; vm_compute; [reflexivity | discriminate]. Qed.

(** C7 (amended): in the 10 MiB scenario against a fault-free service, with no
    [Offset] the first request has no range header and only its first
    1,048,576 body bytes are stored; with [Offset = 0] it carries
    [bytes=0-1048575]. Either way the remaining 9,437,184 bytes are planned as
    chunks of 4,194,304, 4,194,304 and 1,048,576 bytes, requested (chunks
    finishing in plan order) as [bytes=1048576-5242879], [bytes=5242880-9437183]
    and [bytes=9437184-10485759], and in every completion order the result's
    [ContentLength] is 10,485,760. *)
Theorem DownloadTo_10MiB_scenario :
  chunk_plan 1048576 9437184 4194304
    = [(1048576, 4194304, 0); (5242880, 4194304, 1); (9437184, 1048576, 2)]
  /\ log _ (snd (big_run None []))
     = [Sent None; BufWrite 0 1048576;
        Sent (Some "bytes=1048576-5242879"%string); BufWrite 1048576 4194304;
        Sent (Some "bytes=5242880-9437183"%string); BufWrite 5242880 4194304;
        Sent (Some "bytes=9437184-10485759"%string); BufWrite 9437184 1048576]
  /\ log _ (snd (big_run (Some 0) []))
     = [Sent (Some "bytes=0-1048575"%string); BufWrite 0 1048576;
        Sent (Some "bytes=1048576-5242879"%string); BufWrite 1048576 4194304;
        Sent (Some "bytes=5242880-9437183"%string); BufWrite 5242880 4194304;
        Sent (Some "bytes=9437184-10485759"%string); BufWrite 9437184 1048576]
  /\ forallb (fun ch => content_length_is 10485760 (fst (big_run None ch))
                        && content_length_is 10485760 (fst (big_run (Some 0) ch)))
       all_orders = true.
Proof. split; [| split; [| split]]; vm_compute; reflexivity. Qed.

(** C8: an [HttpPipeline] built from zero policies fails with
    [std::invalid_argument], a ConfigFault, through both the copying and the
    moving constructor; built from one or more policies (even a null one) it
    succeeds. *)
Theorem HttpPipeline_needs_a_policy :
  HttpPipeline_copy [] = inr ErrInvalidArgument
  /\ HttpPipeline_move [] = inr ErrInvalidArgument
  /\ fault_kind ErrInvalidArgument = ConfigFault
  /\ (forall p ps, exists q, HttpPipeline_copy (p :: ps) = inl q)
  /\ (forall p ps, exists q, HttpPipeline_move (p :: ps) = inl q).
Proof.
  split; [reflexivity | split; [reflexivity | split; [reflexivity | split]]];
    intros p ps; eexists; reflexivity.
Qed.

(** C10 (code slip): [UploadRangeFromUrl] with a source offset overwrites the
    target range header with the source range: for target offset 100 and
    length 50 the header is [bytes=100-149] without source options, but
    [bytes=0-] (a to-end form although the length is known) with source
    offset 0, and [bytes=0-49] with source offset 0 and length 50; the source
    range option is never set. *)
Theorem UploadRangeFromUrl_target_range_overwritten :
  TargetRange (upload_range_from_url 100 50 {| SourceOffset := None; SourceLength := None |})
    = "bytes=100-149"%string
  /\ TargetRange (upload_range_from_url 100 50 {| SourceOffset := Some 0; SourceLength := None |})
    = "bytes=0-"%string
  /\ TargetRange (upload_range_from_url 100 50 {| SourceOffset := Some 0; SourceLength := Some 50 |})
    = "bytes=0-49"%string
  /\ SourceRange (upload_range_from_url 100 50 {| SourceOffset := Some 0; SourceLength := Some 50 |})
    = None
  /\ upload_range_header 100 50 = "bytes=100-149"%string.
Proof. repeat split; vm_compute; reflexivity. Qed.

End ConcreteProofs.

(* ------------------------------------------------------------------------- *)
(** ** Witnesses *)

Module Witnesses.

Import TestService Scenarios.

Lemma resume_etag_mismatch_fails_witness :
  exists s1 r,
    download small_state (download_range (retry_options resume_options 10)) = (s1, inl r)
    /\ raw_ETag r <> "0x8D7"%string
    /\ on_read_loop State download retries (read_stream State download read retries 5)
         resume_options "0x8D7" 10 20 1 0 None (world small_state)
       = (inr ErrFileChanged,
          {| srv := s1;
             log := log _ (world small_state)
                    ++ [Sent (download_range (retry_options resume_options 10))] |})
    /\ fault_kind ErrFileChanged = ConsistencyFault.
Proof.
  do 2 eexists. split; [reflexivity |]. split; [cbv; discriminate |].
  eapply (resume_etag_mismatch_fails State download retries
           (read_stream State download read retries 5) resume_options "0x8D7" 10 20 0 0
           (world small_state)); [reflexivity | cbv; discriminate].
Defined.

Lemma resume_downloads_twice_witness :
  exists s1 s2 r1 r2,
    let st := init 100 ["0x8D8"; "0x8D9"]%string [] in
    download st (download_range (retry_options resume_options 10)) = (s1, inl r1)
    /\ download s1 (download_range (retry_options resume_options 10)) = (s2, inl r2)
    /\ raw_ETag r2 <> "0x8D8"%string
    /\ retryFunction State download resume_options "0x8D8" 10 (world st)
       = (inl (ReliableStream (Some (RawBody (raw_BodyId r2) (raw_BodyLength r2)))
                 (retry_options resume_options 10) (raw_ETag r2) 0),
          {| srv := s2;
             log := log _ (world st)
                    ++ [Sent (download_range (retry_options resume_options 10));
                        Sent (download_range (retry_options resume_options 10))] |}).
Proof.
  do 4 eexists. cbv zeta. split; [reflexivity |]. split; [reflexivity |].
  split; [cbv; discriminate |].
  eapply (resume_downloads_twice State download resume_options "0x8D8" 10
           (world (init 100 ["0x8D8"; "0x8D9"]%string []))); reflexivity.
Defined.

Lemma chunk_plan_partition_witness :
  0 < 4194304
  /\ exists o l c, In (o, l, c) (chunk_plan 1048576 9437184 4194304) /\ o <= 10485759 < o + l.
Proof.
  split; [lia |].
  apply (proj2 (proj2 (proj2 (proj2 (chunk_plan_partition 1048576 9437184 4194304
                                        ltac:(lia))))) 10485759).
  lia.
Defined.

Lemma schedule_surfaces_first_fault_witness :
  exists st' tr err,
    schedule unit 2 3 one_failing_work [] tt = (st', tr, err)
    /\ In (Complete 2 None) tr
    /\ exists e0, err = Some e0.
Proof.
  destruct (schedule unit 2 3 one_failing_work [] tt) as [[st' tr] err] eqn:H.
  exists st', tr, err. split; [reflexivity |].
  destruct (schedule_surfaces_first_fault unit 2 3 one_failing_work [] tt st' tr err H)
    as (_ & _ & _ & Hf).
  vm_compute in H. inversion H; subst. split.
  - cbn. auto 10.
  - apply Hf. exists 1%nat, (ErrService 409). cbn. auto 10.
Defined.

Lemma finalize_by_last_index_witness :
  let first := returnTypeConverter (wrap_response resume_options
                 {| raw_ETag := "0x8D8"; raw_LastModified := ""; raw_ContentRange := None;
                    raw_HttpHeaders := ""; raw_Metadata := [];
                    raw_IsServerEncrypted := false; raw_BodyId := 0; raw_BodyLength := 0 |}) in
  let chunk (tag : string) := wrap_response resume_options
                 {| raw_ETag := tag; raw_LastModified := ""; raw_ContentRange := None;
                    raw_HttpHeaders := ""; raw_Metadata := [];
                    raw_IsServerEncrypted := true; raw_BodyId := 1; raw_BodyLength := 0 |} in
  NoDup (map fst [(2, chunk "last"%string); (0, chunk "a"%string); (1, chunk "b"%string)])
  /\ fold_left (fun r c => finalize_ret (fst c) 3 (snd c) r)
       [(2, chunk "last"%string); (0, chunk "a"%string); (1, chunk "b"%string)] first
     = returnTypeConverter (chunk "last"%string).
Proof.
  cbv zeta.
  assert (Hnd : NoDup (map fst [(2, wrap_response resume_options
                 {| raw_ETag := "last"; raw_LastModified := ""; raw_ContentRange := None;
                    raw_HttpHeaders := ""; raw_Metadata := [];
                    raw_IsServerEncrypted := true; raw_BodyId := 1; raw_BodyLength := 0 |});
                 (0, wrap_response resume_options
                 {| raw_ETag := "a"; raw_LastModified := ""; raw_ContentRange := None;
                    raw_HttpHeaders := ""; raw_Metadata := [];
                    raw_IsServerEncrypted := true; raw_BodyId := 1; raw_BodyLength := 0 |});
                 (1, wrap_response resume_options
                 {| raw_ETag := "b"; raw_LastModified := ""; raw_ContentRange := None;
                    raw_HttpHeaders := ""; raw_Metadata := [];
                    raw_IsServerEncrypted := true; raw_BodyId := 1; raw_BodyLength := 0 |})])).
  { cbn. repeat constructor; cbn; intuition lia. }
  split; [exact Hnd |].
  rewrite (proj2 (finalize_by_last_index State download read retries) 3 _ _ Hnd).
  reflexivity.
Defined.

Lemma DownloadTo_buffer_too_small_witness :
  let options := {| to_Offset := Some 0; to_Length := None; InitialChunkSize := Some 10;
                    ChunkSize := Some 10; Concurrency := 2 |} in
  exists s1 resp,
    download small_state (download_range (first_chunk_options default_chunk options))
      = (s1, inl resp)
    /\ DownloadTo State download read retries default_chunk 50 options [] (world small_state)
       = (inr (ErrBufferNotBigEnough 100),
          {| srv := s1;
             log := log _ (world small_state)
                    ++ [Sent (download_range (first_chunk_options default_chunk options))] |})
    /\ fault_kind (ErrBufferNotBigEnough 100) = ConfigFault.
Proof.
  cbv zeta. do 2 eexists. split; [reflexivity |].
  eapply (DownloadTo_buffer_too_small State download read retries default_chunk 50
           {| to_Offset := Some 0; to_Length := None; InitialChunkSize := Some 10;
              ChunkSize := Some 10; Concurrency := 2 |} [] (world small_state));
    [reflexivity | vm_compute; reflexivity | lia | lia].
Defined.

End Witnesses.
